(** * Media-wall response reducer of loklak_search

    Shallow embedding of [src/app/reducers/api-media-wall-response.ts]:
    the [State] slice, the actions the reducer switches on, and the
    [reducer] itself.  The filter helpers that the reducer imports from
    [../models] are an interface ([Models]); the reducer is written once,
    over any implementation of that interface. *)

From stdpp Require Import base decidable list strings.

Open Scope string_scope.
Open Scope list_scope.

(** ** Data model *)

(** Modelled from the spec: the declaration of [ApiResponseResult]
    ([../models/api-response]) is not part of the listing.  A post carries
    an id, an account reference and a text; nothing else is read by the
    moderation logic. *)
Record ApiResponseResult : Type := mkFeed {
  feed_id : string;
  feed_acct : string;
  feed_text : string
}.

#[global] Instance ApiResponseResult_eq_dec : EqDecision ApiResponseResult.
Proof. solve_decision. Defined.

(** The payload of the two [..._COMPLETE_SUCCESS] actions; the reducer
    reads only [apiResponse.statuses]. *)
Record ApiResponse : Type := mkApiResponse {
  statuses : list ApiResponseResult
}.

Record State : Type := mkState {
  entities : list ApiResponseResult;
  filteredEntities : list ApiResponseResult;
  hiddenFeedId : list string;
  blockedUser : list string;
  profanityCheck : bool;
  removeDuplicate : bool
}.

Definition initialState : State := {|
  entities := [];
  filteredEntities := [];
  hiddenFeedId := [];
  blockedUser := [];
  profanityCheck := false;
  removeDuplicate := false
|}.

(** The union [apiAction.Actions | wallPaginationAction.Actions |
    wallModerationAction.Actions], by [action.type].  Every action type the
    [switch] has no [case] for is [OTHER_ACTION], tagged with its type
    string. *)
Inductive Action : Type :=
  | WALL_SEARCH_COMPLETE_SUCCESS (payload : ApiResponse)
  | WALL_SEARCH_COMPLETE_FAIL
  | WALL_PAGINATION_COMPLETE_SUCCESS (payload : ApiResponse)
  | WALL_PAGINATION_COMPLETE_FAIL
  | WALL_HIDE_FEED (payload : string)
  | WALL_SHOW_FEED (payload : string)
  | WALL_BLOCK_USER (payload : string)
  | WALL_UNBLOCK_USER (payload : string)
  | WALL_PROFANITY_CHANGE_ACTION (payload : bool)
  | WALL_REMOVE_DUPLICATE_CHANGE_ACTION (payload : bool)
  | OTHER_ACTION (type : string).

(** ** The helpers imported from [../models] *)

Class Models : Type := {
  removeDuplicateCheck : list ApiResponseResult → list ApiResponseResult;
  accountExclusion : list ApiResponseResult → list string → list ApiResponseResult;
  hideFeed : list ApiResponseResult → string → list ApiResponseResult;
  showFeed :
    list ApiResponseResult → list ApiResponseResult → string → list ApiResponseResult;
  accountInclusion :
    list ApiResponseResult → list ApiResponseResult → string → list ApiResponseResult;
  removeId : list string → string → list string;
  profanityFilter : list ApiResponseResult → list ApiResponseResult
}.

(** ** The reducer *)

Section Reducer.
Context {M : Models}.

(** [Object.assign({}, state, {entities, filteredEntities})] and its
    siblings: a copy of [state] with the named fields replaced. *)
Definition assign_entities (state : State)
    (es fs : list ApiResponseResult) : State :=
  {| entities := es;
     filteredEntities := fs;
     hiddenFeedId := hiddenFeedId state;
     blockedUser := blockedUser state;
     profanityCheck := profanityCheck state;
     removeDuplicate := removeDuplicate state |}.

Definition assign_hidden (state : State)
    (fs : list ApiResponseResult) (hidden : list string) : State :=
  {| entities := entities state;
     filteredEntities := fs;
     hiddenFeedId := hidden;
     blockedUser := blockedUser state;
     profanityCheck := profanityCheck state;
     removeDuplicate := removeDuplicate state |}.

Definition assign_blocked (state : State)
    (fs : list ApiResponseResult) (blocked : list string) : State :=
  {| entities := entities state;
     filteredEntities := fs;
     hiddenFeedId := hiddenFeedId state;
     blockedUser := blocked;
     profanityCheck := profanityCheck state;
     removeDuplicate := removeDuplicate state |}.

Definition assign_profanity (state : State)
    (fs : list ApiResponseResult) (flag : bool) : State :=
  {| entities := entities state;
     filteredEntities := fs;
     hiddenFeedId := hiddenFeedId state;
     blockedUser := blockedUser state;
     profanityCheck := flag;
     removeDuplicate := removeDuplicate state |}.

Definition assign_duplicate (state : State)
    (fs : list ApiResponseResult) (flag : bool) : State :=
  {| entities := entities state;
     filteredEntities := fs;
     hiddenFeedId := hiddenFeedId state;
     blockedUser := blockedUser state;
     profanityCheck := profanityCheck state;
     removeDuplicate := flag |}.

Definition reducer (state : State) (action : Action) : State :=
  match action with
  | WALL_SEARCH_COMPLETE_SUCCESS apiResponse =>
      let newFeeds := accountExclusion (statuses apiResponse) (blockedUser state) in
      let newFeeds :=
        if profanityCheck state then profanityFilter newFeeds else newFeeds in
      let newFeeds :=
        if removeDuplicate state then removeDuplicateCheck newFeeds else newFeeds in
      assign_entities state (statuses apiResponse) newFeeds
  | WALL_SEARCH_COMPLETE_FAIL => state
  | WALL_PAGINATION_COMPLETE_SUCCESS apiResponse =>
      let newFeeds := accountExclusion (statuses apiResponse) (blockedUser state) in
      let newFeeds :=
        if profanityCheck state
        then profanityFilter (statuses apiResponse) else newFeeds in
      let filtered := newFeeds ++ filteredEntities state in
      let filtered :=
        if removeDuplicate state then removeDuplicateCheck filtered else filtered in
      assign_entities state (statuses apiResponse ++ entities state) filtered
  | WALL_PAGINATION_COMPLETE_FAIL => state
  | WALL_HIDE_FEED id =>
      let newFeeds := hideFeed (filteredEntities state) id in
      assign_hidden state newFeeds (hiddenFeedId state ++ [id])
  | WALL_SHOW_FEED id =>
      let newEntities := showFeed (entities state) (filteredEntities state) id in
      let newHiddenFeedId := removeId (hiddenFeedId state) id in
      assign_hidden state newEntities newHiddenFeedId
  | WALL_BLOCK_USER user =>
      let blocked := blockedUser state ++ [user] in
      let newFeeds := accountExclusion (filteredEntities state) blocked in
      assign_blocked state newFeeds blocked
  | WALL_UNBLOCK_USER user =>
      let newEntities :=
        accountInclusion (entities state) (filteredEntities state) user in
      let newBlockedUser := removeId (hiddenFeedId state) user in
      assign_blocked state newEntities newBlockedUser
  | WALL_PROFANITY_CHANGE_ACTION flag =>
      let filtered := profanityFilter (filteredEntities state) in
      assign_profanity state filtered flag
  | WALL_REMOVE_DUPLICATE_CHANGE_ACTION flag =>
      let filtered := removeDuplicateCheck (filteredEntities state) in
      assign_duplicate state filtered flag
  | OTHER_ACTION _ => state
  end.

(** The default parameter [state: State = initialState]: a call without a
    state starts from [initialState]. *)
Definition reducer_default (state : option State) (action : Action) : State :=
  reducer (default initialState state) action.

(** Dispatching a sequence of actions, oldest first. *)
Definition dispatch (state : State) (actions : list Action) : State :=
  foldl reducer state actions.

(** The states the store can be in: [initialState] and whatever the
    reducer makes of a reachable state. *)
Inductive reachable : State → Prop :=
  | reachable_init : reachable initialState
  | reachable_step state action :
      reachable state → reachable (reducer state action).

(** The selectors. *)
Definition getEntities (state : State) := entities state.
Definition getFilteredEntities (state : State) := filteredEntities state.
Definition getHiddenFeedId (state : State) := hiddenFeedId state.
Definition getBlockedUser (state : State) := blockedUser state.
Definition getProfanityCheck (state : State) := profanityCheck state.
Definition getDuplicateRemove (state : State) := removeDuplicate state.
End Reducer.

(** The ids of a list of posts, in order. *)
Definition ids (l : list ApiResponseResult) : list string := feed_id <$> l.

(** ** The contracts of the helpers (spec, section 4.2) *)

Section Contracts.
Context (M : Models).

(** Removes all entities whose account is in [blockedAccounts];
    order-preserving. *)
Definition accountExclusion_contract : Prop :=
  ∀ l blocked,
    accountExclusion l blocked = filter (λ e, feed_acct e ∉ blocked) l.

(** Removes the entity with [id]. *)
Definition hideFeed_contract : Prop :=
  ∀ l id, hideFeed l id = filter (λ e, feed_id e ≠ id) l.

(** List difference of one id. *)
Definition removeId_contract : Prop :=
  ∀ l id, removeId l id = filter (λ x, x ≠ id) l.

(** Re-adds entity [id] from [allEntities] into [currentFiltered]: the
    result holds the posts of [currentFiltered] and the posts of
    [allEntities] with that id, each as often as it occurs there; the
    position is the helper's policy. *)
Definition showFeed_contract : Prop :=
  ∀ all cur id,
    showFeed all cur id ≡ₚ cur ++ filter (λ e, feed_id e = id) all.

(** Re-adds the entities by [accountId] from [allEntities] into
    [currentFiltered]. *)
Definition accountInclusion_contract : Prop :=
  ∀ all cur user e,
    e ∈ accountInclusion all cur user ↔ e ∈ cur ∨ (e ∈ all ∧ feed_acct e = user).

(** A filter returns a by-id subset (or redaction) of its input. *)
Definition by_id_subset (f : list ApiResponseResult → list ApiResponseResult) : Prop :=
  ∀ l, ids (f l) ⊆ ids l.

(** A restoring helper adds only posts drawn from the full list. *)
Definition by_id_restore
    (f : list ApiResponseResult → list ApiResponseResult → list ApiResponseResult)
    : Prop :=
  ∀ all cur, ids (f all cur) ⊆ ids cur ++ ids all.

Record subset_contracts : Prop := {
  accountExclusion_sub : ∀ blocked, by_id_subset (λ l, accountExclusion l blocked);
  profanityFilter_sub : by_id_subset profanityFilter;
  removeDuplicateCheck_sub : by_id_subset removeDuplicateCheck;
  hideFeed_sub : ∀ id, by_id_subset (λ l, hideFeed l id);
  showFeed_sub : ∀ id, by_id_restore (λ all cur, showFeed all cur id);
  accountInclusion_sub :
    ∀ user, by_id_restore (λ all cur, accountInclusion all cur user)
}.
End Contracts.

(** The invariant of the data model: [filteredEntities] is a subset of
    [entities] by id. *)
Definition filtered_within_entities (state : State) : Prop :=
  ids (filteredEntities state) ⊆ ids (entities state).

(** ** A reference implementation of the helpers *)

Section SpecModels.
(** The opaque lexical check of [profanityFilter], on the text of a post. *)
Variable profane : string → bool.

(** Modelled from the spec: [accountExclusion] of [../models], which is
    not part of the listing; it removes all entities whose account is in
    [blockedAccounts], order-preserving. *)
Definition spec_accountExclusion
    (l : list ApiResponseResult) (blocked : list string) :=
  filter (λ e, feed_acct e ∉ blocked) l.

(** Modelled from the spec: [accountInclusion] of [../models]; it re-adds
    the entities by [accountId] from [allEntities] into [currentFiltered]
    and does not duplicate already-present entities. *)
Definition spec_accountInclusion
    (all cur : list ApiResponseResult) (user : string) :=
  cur ++ filter (λ e, feed_acct e = user ∧ e ∉ cur) all.

(** Modelled from the spec: [profanityFilter] of [../models]; it removes
    the entities deemed profane by the lexical check, order-preserving
    and idempotent. *)
Definition spec_profanityFilter (l : list ApiResponseResult) :=
  filter (λ e, ¬ profane (feed_text e)) l.

(** Modelled from the spec: [removeDuplicateCheck] of [../models]; it
    collapses the entities with the same id and keeps the first
    occurrence. *)
Fixpoint spec_removeDuplicateCheck (l : list ApiResponseResult) :=
  match l with
  | [] => []
  | e :: l' =>
      e :: filter (λ x, feed_id x ≠ feed_id e) (spec_removeDuplicateCheck l')
  end.

(** Modelled from the spec: [hideFeed] of [../models]; it removes the
    entity with [id]. *)
Definition spec_hideFeed (l : list ApiResponseResult) (id : string) :=
  filter (λ e, feed_id e ≠ id) l.

(** Modelled from the spec: [showFeed] of [../models]; it re-adds entity
    [id] from [allEntities] into [currentFiltered]. *)
Definition spec_showFeed (all cur : list ApiResponseResult) (id : string) :=
  cur ++ filter (λ e, feed_id e = id) all.

(** Modelled from the spec: [removeId] of [../models]; the list
    difference of one id. *)
Definition spec_removeId (l : list string) (id : string) :=
  filter (λ x, x ≠ id) l.

Definition specModels : Models := {|
  removeDuplicateCheck := spec_removeDuplicateCheck;
  accountExclusion := spec_accountExclusion;
  hideFeed := spec_hideFeed;
  showFeed := spec_showFeed;
  accountInclusion := spec_accountInclusion;
  removeId := spec_removeId;
  profanityFilter := spec_profanityFilter
|}.
End SpecModels.

(** A lexical check for the examples: a post is profane when its text is
    in the lexicon. *)
Definition lexicon_check (lexicon : list string) (text : string) : bool :=
  bool_decide (text ∈ lexicon).

Definition demoModels : Models := specModels (lexicon_check ["darn"]).

(** ** Example walls *)

Definition post_a1 : ApiResponseResult := mkFeed "1" "a" "hello".
Definition post_a1_edited : ApiResponseResult := mkFeed "1" "a" "hello again".
Definition post_b2 : ApiResponseResult := mkFeed "2" "b" "world".
Definition post_c3 : ApiResponseResult := mkFeed "3" "c" "news".
Definition post_d4 : ApiResponseResult := mkFeed "4" "d" "darn".

(** [entities=[{id:1,acct:"a"},{id:2,acct:"b"}]], [filteredEntities] the
    same, nothing hidden or blocked, both flags off. *)
Definition wall_ab : State := {|
  entities := [post_a1; post_b2];
  filteredEntities := [post_a1; post_b2];
  hiddenFeedId := [];
  blockedUser := [];
  profanityCheck := false;
  removeDuplicate := false
|}.

(** [entities=[{id:1}]], [filteredEntities=[{id:1}]], no filter active. *)
Definition wall_1 : State := {|
  entities := [post_a1];
  filteredEntities := [post_a1];
  hiddenFeedId := [];
  blockedUser := [];
  profanityCheck := false;
  removeDuplicate := false
|}.

(** Post 1 was hidden, then came back with the next page in an edited
    version while the duplicate check was on. *)
Definition wall_rehidden_trace : list Action :=
  [ WALL_REMOVE_DUPLICATE_CHANGE_ACTION true;
    WALL_SEARCH_COMPLETE_SUCCESS (mkApiResponse [post_a1]);
    WALL_HIDE_FEED "1";
    WALL_PAGINATION_COMPLETE_SUCCESS (mkApiResponse [post_a1_edited]) ].

Definition wall_rehidden : State := {|
  entities := [post_a1_edited; post_a1];
  filteredEntities := [post_a1_edited];
  hiddenFeedId := ["1"];
  blockedUser := [];
  profanityCheck := false;
  removeDuplicate := true
|}.

(** Post 1 arrived twice, with the search and with the next page, while
    the duplicate check was on: twice in [entities], once in the view. *)
Definition wall_repeated_trace : list Action :=
  [ WALL_REMOVE_DUPLICATE_CHANGE_ACTION true;
    WALL_SEARCH_COMPLETE_SUCCESS (mkApiResponse [post_a1]);
    WALL_PAGINATION_COMPLETE_SUCCESS (mkApiResponse [post_a1]) ].

Definition wall_repeated : State := {|
  entities := [post_a1; post_a1];
  filteredEntities := [post_a1];
  hiddenFeedId := [];
  blockedUser := [];
  profanityCheck := false;
  removeDuplicate := true
|}.

(** Account "a" was blocked and a page with a post of "a" arrived while
    the profanity check was on. *)
Definition wall_blocked_a_trace : list Action :=
  [ WALL_PROFANITY_CHANGE_ACTION true;
    WALL_BLOCK_USER "a";
    WALL_PAGINATION_COMPLETE_SUCCESS (mkApiResponse [post_a1; post_b2]) ].

Definition wall_blocked_a : State := {|
  entities := [post_a1; post_b2];
  filteredEntities := [post_a1; post_b2];
  hiddenFeedId := [];
  blockedUser := ["a"];
  profanityCheck := true;
  removeDuplicate := false
|}.

(** The profanity check removed post 4 from the view. *)
Definition wall_profane : State := {|
  entities := [post_a1; post_d4];
  filteredEntities := [post_a1];
  hiddenFeedId := [];
  blockedUser := [];
  profanityCheck := true;
  removeDuplicate := false
|}.

(** ** Kinds of actions and properties of the view *)

(** The two cases of the [switch] that assign [entities]. *)
Definition carries_posts (action : Action) : bool :=
  match action with
  | WALL_SEARCH_COMPLETE_SUCCESS _ | WALL_PAGINATION_COMPLETE_SUCCESS _ => true
  | _ => false
  end.

(** The two cases that assign [hiddenFeedId]. *)
Definition hides_or_shows (action : Action) : bool :=
  match action with
  | WALL_HIDE_FEED _ | WALL_SHOW_FEED _ => true
  | _ => false
  end.

(** The two cases that assign [blockedUser]. *)
Definition blocks_or_unblocks (action : Action) : bool :=
  match action with
  | WALL_BLOCK_USER _ | WALL_UNBLOCK_USER _ => true
  | _ => false
  end.

(** The case that assigns [profanityCheck]. *)
Definition toggles_profanity (action : Action) : bool :=
  match action with
  | WALL_PROFANITY_CHANGE_ACTION _ => true
  | _ => false
  end.

(** The case that assigns [removeDuplicate]. *)
Definition toggles_duplicate (action : Action) : bool :=
  match action with
  | WALL_REMOVE_DUPLICATE_CHANGE_ACTION _ => true
  | _ => false
  end.

(** A filter that only removes posts: what it returns was in its input. *)
Definition only_removes
    (f : list ApiResponseResult → list ApiResponseResult) : Prop :=
  ∀ l e, e ∈ f l → e ∈ l.

(** Applying the filter twice equals applying it once. *)
Definition idempotent
    (f : list ApiResponseResult → list ApiResponseResult) : Prop :=
  ∀ l, f (f l) = f l.

(** No post of the view is by a blocked account. *)
Definition no_blocked_in_view (state : State) : Prop :=
  ∀ e, e ∈ filteredEntities state → feed_acct e ∉ blockedUser state.

(** The actions after which the view is still free of blocked accounts:
    all but [ShowFeed] and [UnblockUser], which bring posts back from
    [entities] or replace the blocked list, and a page that arrives while
    [profanityCheck] is on, which is not account-filtered. *)
Definition respects_blocking (state : State) (action : Action) : bool :=
  match action with
  | WALL_SHOW_FEED _ | WALL_UNBLOCK_USER _ => false
  | WALL_PAGINATION_COMPLETE_SUCCESS _ => negb (profanityCheck state)
  | _ => true
  end.

(** ** Basic facts about ids *)

Lemma ids_app l1 l2 : ids (l1 ++ l2) = ids l1 ++ ids l2.
Proof. apply fmap_app. Qed.

Lemma elem_of_ids i l : i ∈ ids l ↔ ∃ e, e ∈ l ∧ feed_id e = i.
Proof.
  unfold ids. rewrite list_elem_of_fmap. split.
  - intros (e & -> & He). by exists e.
  - intros (e & He & <-). by exists e.
Qed.

Lemma ids_filter_subseteq (P : ApiResponseResult → Prop) `{∀ e, Decision (P e)} l :
  ids (filter P l) ⊆ ids l.
Proof.
  intros i. rewrite !elem_of_ids. intros (e & He & <-).
  apply list_elem_of_filter in He as [_ He]. eauto.
Qed.

Lemma ids_removeDuplicateCheck_subseteq l :
  ids (spec_removeDuplicateCheck l) ⊆ ids l.
Proof.
  induction l as [|e l IH]; simpl; [done|].
  intros i. rewrite !elem_of_cons. intros [->|Hi]; [by left|right].
  apply IH. eapply ids_filter_subseteq, Hi.
Qed.

(** ** The reference implementation meets the contracts *)

Section SpecModelsFacts.
Variable profane : string → bool.

Lemma specModels_accountExclusion :
  accountExclusion_contract (specModels profane).
Proof. intros l blocked. reflexivity. Qed.

Lemma specModels_hideFeed : hideFeed_contract (specModels profane).
Proof. intros l id. reflexivity. Qed.

Lemma specModels_removeId : removeId_contract (specModels profane).
Proof. intros l id. reflexivity. Qed.

Lemma specModels_showFeed : showFeed_contract (specModels profane).
Proof. intros all cur id. reflexivity. Qed.

Lemma specModels_accountInclusion :
  accountInclusion_contract (specModels profane).
Proof.
  intros all cur user e. simpl. unfold spec_accountInclusion.
  rewrite elem_of_app, list_elem_of_filter.
  destruct (decide (e ∈ cur)); tauto.
Qed.

Lemma specModels_subset : subset_contracts (specModels profane).
Proof.
  split; simpl.
  - intros blocked l. apply ids_filter_subseteq.
  - intros l. apply ids_filter_subseteq.
  - intros l. apply ids_removeDuplicateCheck_subseteq.
  - intros id l. apply ids_filter_subseteq.
  - intros id all cur i. unfold spec_showFeed.
    rewrite ids_app, !elem_of_app. intros [Hi|Hi]; [by left|right].
    eapply ids_filter_subseteq, Hi.
  - intros user all cur i. unfold spec_accountInclusion.
    rewrite ids_app, !elem_of_app. intros [Hi|Hi]; [by left|right].
    eapply ids_filter_subseteq, Hi.
Qed.

(** The two properties the spec requires of the profanity filter and of
    the duplicate check: applying twice equals applying once. *)
Lemma spec_profanityFilter_idemp l :
  spec_profanityFilter profane (spec_profanityFilter profane l)
  = spec_profanityFilter profane l.
Proof.
  unfold spec_profanityFilter. by apply list_filter_filter_l.
Qed.
End SpecModelsFacts.

Lemma filter_comm_id (i j : string) (l : list ApiResponseResult) :
  filter (λ x, feed_id x ≠ i) (filter (λ x, feed_id x ≠ j) l)
  = filter (λ x, feed_id x ≠ j) (filter (λ x, feed_id x ≠ i) l).
Proof.
  rewrite !list_filter_filter. apply list_filter_iff. tauto.
Qed.

Lemma spec_removeDuplicateCheck_filter i l :
  spec_removeDuplicateCheck (filter (λ x, feed_id x ≠ i) l)
  = filter (λ x, feed_id x ≠ i) (spec_removeDuplicateCheck l).
Proof.
  induction l as [|e l IH]; [done|].
  cbn [spec_removeDuplicateCheck]. rewrite !filter_cons.
  destruct (decide (feed_id e ≠ i)) as [Hne|Heq].
  - cbn [spec_removeDuplicateCheck]. rewrite IH. f_equal. apply filter_comm_id.
  - rewrite IH. apply dec_stable in Heq as <-.
    symmetry. by apply list_filter_filter_l.
Qed.

Lemma spec_removeDuplicateCheck_idemp l :
  spec_removeDuplicateCheck (spec_removeDuplicateCheck l)
  = spec_removeDuplicateCheck l.
Proof.
  induction l as [|e l IH]; [done|].
  cbn [spec_removeDuplicateCheck]. f_equal.
  rewrite spec_removeDuplicateCheck_filter, IH.
  by apply list_filter_filter_l.
Qed.

(** ** Reachability *)

Lemma reachable_dispatch (M : Models) state actions :
  reachable state → reachable (dispatch state actions).
Proof.
  revert state. induction actions as [|a actions IH]; intros state Hs; [done|].
  apply IH. by constructor.
Qed.

Lemma wall_rehidden_reachable : @reachable demoModels wall_rehidden.
Proof.
  change wall_rehidden
    with (@dispatch demoModels initialState wall_rehidden_trace).
  apply reachable_dispatch, reachable_init.
Qed.

Lemma wall_repeated_reachable : @reachable demoModels wall_repeated.
Proof.
  change wall_repeated
    with (@dispatch demoModels initialState wall_repeated_trace).
  apply reachable_dispatch, reachable_init.
Qed.

Lemma wall_blocked_a_reachable : @reachable demoModels wall_blocked_a.
Proof.
  change wall_blocked_a
    with (@dispatch demoModels initialState wall_blocked_a_trace).
  apply reachable_dispatch, reachable_init.
Qed.

Lemma wall_profane_reachable : @reachable demoModels wall_profane.
Proof.
  change wall_profane
    with (@dispatch demoModels initialState
            [ WALL_PROFANITY_CHANGE_ACTION true;
              WALL_SEARCH_COMPLETE_SUCCESS (mkApiResponse [post_a1; post_d4]) ]).
  apply reachable_dispatch, reachable_init.
Qed.

(** ** List facts used by the claims *)

Lemma filter_all {A} (P : A → Prop) `{!∀ x, Decision (P x)} (l : list A) :
  (∀ x, x ∈ l → P x) → filter P l = l.
Proof.
  induction l as [|x l IH]; intros HP; [done|].
  rewrite filter_cons_True by (apply HP; left).
  f_equal. apply IH. intros y Hy. apply HP. by right.
Qed.

Lemma accountExclusion_nil (M : Models) l :
  accountExclusion_contract M → accountExclusion l [] = l.
Proof.
  intros HM. rewrite HM. apply filter_all. intros e _. apply not_elem_of_nil.
Qed.

Lemma removeId_snoc_fresh (M : Models) l id :
  removeId_contract M → id ∉ l → removeId (l ++ [id]) id = l.
Proof.
  intros HM Hid. rewrite HM, filter_app.
  rewrite filter_cons_False, filter_nil, app_nil_r by (intros Hne; by apply Hne).
  apply filter_all. intros x Hx ->. by apply Hid.
Qed.

(** ** Search and pagination results *)

(** C1: on a successful search the reducer replaces [entities] by the
    posts of the payload and recomputes [filteredEntities] from these
    posts: [accountExclusion] with the blocked users of the prior state,
    then [profanityFilter] if [profanityCheck] is on, then
    [removeDuplicateCheck] if [removeDuplicate] is on.  With nobody
    blocked and both flags off, and [accountExclusion] removing exactly
    the posts of blocked accounts, both lists equal the posts. *)
Theorem search_complete_success (M : Models) (s : State) (payload : ApiResponse) :
  let posts := statuses payload in
  let s' := reducer s (WALL_SEARCH_COMPLETE_SUCCESS payload) in
  let unblocked := accountExclusion posts (blockedUser s) in
  let clean := if profanityCheck s then profanityFilter unblocked else unblocked in
  entities s' = posts ∧
  filteredEntities s'
    = (if removeDuplicate s then removeDuplicateCheck clean else clean) ∧
  (accountExclusion_contract M →
   blockedUser s = [] → profanityCheck s = false → removeDuplicate s = false →
   filteredEntities s' = posts ∧ entities s' = posts).
Proof.
  cbn zeta. split; [reflexivity|]. split; [reflexivity|].
  intros HM Hblocked Hprofanity Hduplicate. simpl.
  rewrite Hblocked, Hprofanity, Hduplicate.
  split; [by apply accountExclusion_nil | reflexivity].
Qed.

Lemma search_complete_success_witness :
  accountExclusion_contract demoModels ∧
  let s' := @reducer demoModels initialState
              (WALL_SEARCH_COMPLETE_SUCCESS (mkApiResponse [post_a1; post_b2])) in
  filteredEntities s' = [post_a1; post_b2] ∧ entities s' = [post_a1; post_b2].
Proof.
  split; [apply specModels_accountExclusion|].
  apply (search_complete_success demoModels initialState
           (mkApiResponse [post_a1; post_b2]));
    [apply specModels_accountExclusion | reflexivity | reflexivity | reflexivity].
Defined.

(** C2: on a successful pagination the reducer prepends the raw posts to
    [entities]; the candidates are [accountExclusion] of the posts, except
    that with [profanityCheck] on they are [profanityFilter] of the raw
    posts; the candidates are prepended to [filteredEntities] and the
    combined list goes through [removeDuplicateCheck] exactly when
    [removeDuplicate] is on.  With no filter active, paginating one post
    onto a wall of one post gives the two posts, new one first, in both
    lists. *)
Theorem pagination_complete_success (M : Models) (s : State) (payload : ApiResponse) :
  let posts := statuses payload in
  let s' := reducer s (WALL_PAGINATION_COMPLETE_SUCCESS payload) in
  let candidates :=
    if profanityCheck s then profanityFilter posts
    else accountExclusion posts (blockedUser s) in
  let combined := candidates ++ filteredEntities s in
  entities s' = posts ++ entities s ∧
  filteredEntities s'
    = (if removeDuplicate s then removeDuplicateCheck combined else combined) ∧
  (accountExclusion_contract M →
   blockedUser s = [] → profanityCheck s = false → removeDuplicate s = false →
   ∀ p3 p1, posts = [p3] → entities s = [p1] → filteredEntities s = [p1] →
   entities s' = [p3; p1] ∧ filteredEntities s' = [p3; p1]).
Proof.
  cbn zeta. split; [reflexivity|]. split; [reflexivity|].
  intros HM Hblocked Hprofanity Hduplicate p3 p1 Hposts Hentities Hfiltered.
  simpl. rewrite Hblocked, Hprofanity, Hduplicate, Hposts, Hentities, Hfiltered.
  by rewrite accountExclusion_nil.
Qed.

Lemma pagination_complete_success_witness :
  accountExclusion_contract demoModels ∧
  let s' := @reducer demoModels wall_1
              (WALL_PAGINATION_COMPLETE_SUCCESS (mkApiResponse [post_c3])) in
  entities s' = [post_c3; post_a1] ∧ filteredEntities s' = [post_c3; post_a1].
Proof.
  split; [apply specModels_accountExclusion|].
  apply (pagination_complete_success demoModels wall_1 (mkApiResponse [post_c3]));
    [apply specModels_accountExclusion | reflexivity..].
Defined.

(** ** Actions that leave the state alone *)

(** C4: a failed search, a failed pagination and every action type the
    reducer has no case for return the state they were given. *)
Theorem failures_and_unknown_actions_return_state (M : Models) (s : State) :
  reducer s WALL_SEARCH_COMPLETE_FAIL = s ∧
  reducer s WALL_PAGINATION_COMPLETE_FAIL = s ∧
  ∀ type, reducer s (OTHER_ACTION type) = s.
Proof. repeat split. Qed.

(** ** Toggles and hiding *)

(** C7: [ProfanityToggle(flag)] sets [filteredEntities] to
    [profanityFilter] of the current [filteredEntities] and
    [profanityCheck] to the flag; [DuplicateToggle(flag)] does the same
    with [removeDuplicateCheck] and [removeDuplicate].  The filter runs
    whatever the flag is and [entities] is not consulted, so with a filter
    that returns a by-id subset an id missing from the view is still
    missing after the toggle, also when the flag is off. *)
Theorem toggles_filter_current_view (M : Models) (s : State) (flag : bool) :
  let sp := reducer s (WALL_PROFANITY_CHANGE_ACTION flag) in
  let sd := reducer s (WALL_REMOVE_DUPLICATE_CHANGE_ACTION flag) in
  (filteredEntities sp = profanityFilter (filteredEntities s) ∧
   profanityCheck sp = flag) ∧
  (filteredEntities sd = removeDuplicateCheck (filteredEntities s) ∧
   removeDuplicate sd = flag) ∧
  (by_id_subset profanityFilter →
   ∀ i, i ∉ ids (filteredEntities s) → i ∉ ids (filteredEntities sp)) ∧
  (by_id_subset removeDuplicateCheck →
   ∀ i, i ∉ ids (filteredEntities s) → i ∉ ids (filteredEntities sd)).
Proof.
  cbn zeta. split; [by split|]. split; [by split|].
  split; intros Hsub i Hi Hin; apply Hi, (Hsub _ _ Hin).
Qed.

Lemma toggles_filter_current_view_witness :
  let sp := @reducer demoModels wall_profane (WALL_PROFANITY_CHANGE_ACTION false) in
  "4" ∈ ids (entities sp) ∧ ("4" ∉ ids (filteredEntities sp)).
Proof.
  split; [vm_compute; right; left|].
  destruct (toggles_filter_current_view demoModels wall_profane false)
    as (_ & _ & Hprofanity & _).
  apply Hprofanity.
  - apply (profanityFilter_sub _ (specModels_subset _)).
  - vm_compute. intros Hin. apply list_elem_of_singleton in Hin. discriminate.
Defined.

(** C8: [HideFeed(id)] sets [filteredEntities] to [hideFeed] of the
    current [filteredEntities] and appends the id at the end of
    [hiddenFeedId]; nothing checks whether the id is there already, so
    hiding the same id twice appends it twice.  With [hideFeed] removing
    the posts with that id, no post of the view carries the id. *)
Theorem hide_feed_appends_id (M : Models) (s : State) (id : string) :
  let s1 := reducer s (WALL_HIDE_FEED id) in
  let s2 := reducer s1 (WALL_HIDE_FEED id) in
  filteredEntities s1 = hideFeed (filteredEntities s) id ∧
  hiddenFeedId s1 = hiddenFeedId s ++ [id] ∧
  hiddenFeedId s2 = hiddenFeedId s ++ [id; id] ∧
  (hideFeed_contract M → id ∉ ids (filteredEntities s1)).
Proof.
  cbn zeta. split; [reflexivity|]. split; [reflexivity|]. split.
  - simpl. by rewrite <- app_assoc.
  - intros HM. simpl. rewrite HM, elem_of_ids. intros (e & He & Hid).
    apply list_elem_of_filter in He as [Hne _]. by apply Hne.
Qed.

Lemma hide_feed_appends_id_witness :
  hideFeed_contract demoModels ∧
  "1" ∉ ids (filteredEntities (@reducer demoModels wall_ab (WALL_HIDE_FEED "1"))).
Proof.
  split; [apply specModels_hideFeed|].
  apply (hide_feed_appends_id demoModels wall_ab "1"), specModels_hideFeed.
Defined.

(** ** Unblocking *)

(** C10: [UnblockUser(u)] changes [filteredEntities] and [blockedUser]
    only.  [blockedUser] becomes [removeId] of the hidden-feed ids and u,
    whatever the blocked users were; [entities], [hiddenFeedId],
    [profanityCheck] and [removeDuplicate] stay as they are. *)
Theorem unblock_user_frame (M : Models) (s : State) (u : string) :
  let s' := reducer s (WALL_UNBLOCK_USER u) in
  hiddenFeedId s' = hiddenFeedId s ∧
  blockedUser s' = removeId (hiddenFeedId s) u ∧
  filteredEntities s' = accountInclusion (entities s) (filteredEntities s) u ∧
  entities s' = entities s ∧
  profanityCheck s' = profanityCheck s ∧
  removeDuplicate s' = removeDuplicate s.
Proof. repeat split. Qed.

(** ** The view stays within the entities *)

Section Invariant.
Context (M : Models) (HM : subset_contracts M).

Lemma candidates_within posts blocked (prof dup : bool) rest all :
  ids rest ⊆ ids all →
  let candidates :=
    if prof then profanityFilter posts else accountExclusion posts blocked in
  let combined := candidates ++ rest in
  ids (if dup then removeDuplicateCheck combined else combined)
  ⊆ ids (posts ++ all).
Proof.
  intros Hrest candidates combined.
  assert (ids candidates ⊆ ids posts) as Hcand.
  { subst candidates. destruct prof.
    - apply (profanityFilter_sub M HM).
    - apply (accountExclusion_sub M HM). }
  assert (ids combined ⊆ ids (posts ++ all)) as Hcomb.
  { subst combined. rewrite !ids_app. intros i.
    rewrite !elem_of_app. intros [Hi|Hi]; [left; by apply Hcand|right; by apply Hrest]. }
  destruct dup; [|done].
  etrans; [apply (removeDuplicateCheck_sub M HM)|done].
Qed.

Lemma restore_within
    (f : list ApiResponseResult → list ApiResponseResult → list ApiResponseResult)
    all cur :
  by_id_restore f → ids cur ⊆ ids all → ids (f all cur) ⊆ ids all.
Proof.
  intros Hf Hcur i Hi. apply Hf, elem_of_app in Hi as [Hi|Hi]; [by apply Hcur|done].
Qed.

Lemma reducer_keeps_filtered_within s action :
  filtered_within_entities s → filtered_within_entities (reducer s action).
Proof.
  unfold filtered_within_entities. intros Hs.
  destruct action as [payload| |payload| |id|id|user|user|flag|flag|type];
    simpl; try done.
  - destruct (removeDuplicate s); [etrans; [apply (removeDuplicateCheck_sub M HM)|]|];
      (destruct (profanityCheck s); [etrans; [apply (profanityFilter_sub M HM)|]|]);
      apply (accountExclusion_sub M HM).
  - by apply candidates_within.
  - etrans; [apply (hideFeed_sub M HM)|done].
  - apply (restore_within (λ all cur, showFeed all cur id));
      [apply (showFeed_sub M HM)|done].
  - etrans; [apply (accountExclusion_sub M HM)|done].
  - apply (restore_within (λ all cur, accountInclusion all cur user));
      [apply (accountInclusion_sub M HM)|done].
  - etrans; [apply (profanityFilter_sub M HM)|done].
  - etrans; [apply (removeDuplicateCheck_sub M HM)|done].
Qed.
End Invariant.

(** C9: with helpers that meet their contracts (the filters return a
    by-id subset of their input, [showFeed] and [accountInclusion] add
    only posts of the full list), every state reachable from
    [initialState] has the ids of [filteredEntities] among the ids of
    [entities]. *)
Theorem filtered_subset_of_entities (M : Models) (s : State) :
  subset_contracts M → reachable s → filtered_within_entities s.
Proof.
  intros HM Hreach. induction Hreach as [|s action _ IH].
  - unfold filtered_within_entities. simpl. apply list_subseteq_nil.
  - by apply reducer_keeps_filtered_within.
Qed.

Lemma filtered_subset_of_entities_witness :
  subset_contracts demoModels ∧
  @reachable demoModels wall_rehidden ∧
  ids (filteredEntities wall_rehidden) ⊆ ids (entities wall_rehidden).
Proof.
  split; [apply specModels_subset|].
  split; [apply wall_rehidden_reachable|].
  apply (filtered_subset_of_entities demoModels wall_rehidden);
    [apply specModels_subset | apply wall_rehidden_reachable].
Defined.

(** ** Blocking *)

(** C6, amended: [BlockUser(u)] appends u to [blockedUser], leaves
    [entities] alone and keeps of [filteredEntities], in order, the posts
    whose account is in neither the old blocked list nor u.  So every post
    by u is removed, and the posts by other authors are untouched when no
    post of the view is by an account that was blocked already. *)
Theorem block_user_excludes_blocked (M : Models) (s : State) (u : string) :
  accountExclusion_contract M →
  let s' := reducer s (WALL_BLOCK_USER u) in
  filteredEntities s'
    = filter (λ e, feed_acct e ∉ blockedUser s ++ [u]) (filteredEntities s) ∧
  (∀ e, feed_acct e = u → e ∉ filteredEntities s') ∧
  ((∀ e, e ∈ filteredEntities s → feed_acct e ∉ blockedUser s) →
   filteredEntities s' = filter (λ e, feed_acct e ≠ u) (filteredEntities s)) ∧
  blockedUser s' = blockedUser s ++ [u] ∧
  entities s' = entities s.
Proof.
  intros HM. cbn zeta. simpl. rewrite HM.
  split; [reflexivity|]. split; [|split; [|by split]].
  - intros e <- He. apply list_elem_of_filter in He as [Hacct _].
    apply Hacct, elem_of_app. right. by left.
  - intros Hview. induction (filteredEntities s) as [|e l IH]; [done|].
    rewrite !filter_cons.
    assert (feed_acct e ∉ blockedUser s) as He by (apply Hview; left).
    rewrite IH by (intros x Hx; apply Hview; by right).
    destruct (decide (feed_acct e ≠ u)) as [Hne|Heq].
    + rewrite decide_True; [done|].
      rewrite elem_of_app, list_elem_of_singleton. tauto.
    + rewrite decide_False; [done|].
      apply dec_stable in Heq. rewrite elem_of_app, list_elem_of_singleton. tauto.
Qed.

Lemma block_user_excludes_blocked_witness :
  accountExclusion_contract demoModels ∧
  let s' := @reducer demoModels wall_ab (WALL_BLOCK_USER "a") in
  filteredEntities s' = [post_b2] ∧
  blockedUser s' = ["a"] ∧
  entities s' = [post_a1; post_b2].
Proof.
  split; [apply specModels_accountExclusion|].
  destruct (block_user_excludes_blocked demoModels wall_ab "a"
              (specModels_accountExclusion _))
    as (_ & _ & Hothers & Hblocked & Hentities).
  split; [|by split].
  rewrite Hothers; [reflexivity|].
  intros e _. apply not_elem_of_nil.
Defined.

(** C6 as stated fails: on a reachable wall with account "a" blocked and
    a post of "a" in the view, blocking "c" removes the post of "a", a
    post by another author. *)
Lemma block_user_counterexample :
  let s' := @reducer demoModels wall_blocked_a (WALL_BLOCK_USER "c") in
  @reachable demoModels wall_blocked_a ∧
  filteredEntities s' = [post_b2] ∧
  ¬ (∀ e, e ∈ filteredEntities wall_blocked_a → feed_acct e ≠ "c" →
          e ∈ filteredEntities s').
Proof.
  split; [apply wall_blocked_a_reachable|]. split; [reflexivity|].
  intros Hclaim. specialize (Hclaim post_a1).
  assert (post_a1 ∈ [post_b2]) as Hin.
  { apply Hclaim; [left | discriminate]. }
  apply list_elem_of_singleton in Hin. discriminate.
Qed.

(** ** Block then unblock *)

(** C3, amended: after [BlockUser(u)] and then [UnblockUser(u)], with
    [accountInclusion] re-adding the posts of the account and [removeId]
    removing the id it is given, every post by u in [entities] is in
    [filteredEntities] again and u is not a member of [blockedUser];
    [entities] and [hiddenFeedId] are as before. *)
Theorem block_then_unblock_restores (M : Models) (s : State) (u : string) :
  accountInclusion_contract M → removeId_contract M →
  let s2 := dispatch s [WALL_BLOCK_USER u; WALL_UNBLOCK_USER u] in
  (u ∉ blockedUser s2) ∧
  (∀ e, e ∈ entities s → feed_acct e = u → e ∈ filteredEntities s2) ∧
  entities s2 = entities s ∧
  hiddenFeedId s2 = hiddenFeedId s.
Proof.
  intros Hinclusion Hremove. cbn zeta. simpl.
  split; [|split; [|by split]].
  - rewrite Hremove. intros Hin.
    apply list_elem_of_filter in Hin as [Hne _]. by apply Hne.
  - intros e He Hacct. apply Hinclusion. right. by split.
Qed.

Lemma block_then_unblock_restores_witness :
  accountInclusion_contract demoModels ∧ removeId_contract demoModels ∧
  let s2 := @dispatch demoModels wall_ab
              [WALL_BLOCK_USER "a"; WALL_UNBLOCK_USER "a"] in
  ("a" ∉ blockedUser s2) ∧ post_a1 ∈ filteredEntities s2.
Proof.
  split; [apply specModels_accountInclusion|].
  split; [apply specModels_removeId|].
  destruct (block_then_unblock_restores demoModels wall_ab "a"
              (specModels_accountInclusion _) (specModels_removeId _))
    as (Hblocked & Hrestored & _).
  split; [exact Hblocked|].
  apply Hrestored; [left | reflexivity].
Defined.

(** C3 as stated fails: on the wall of posts 1 (by "a") and 2 (by "b"),
    blocking and then unblocking "a" ends with the post of "a" back in
    [filteredEntities] and with an empty [blockedUser]. *)
Lemma block_then_unblock_counterexample :
  let s1 := @reducer demoModels wall_ab (WALL_BLOCK_USER "a") in
  let s2 := @reducer demoModels s1 (WALL_UNBLOCK_USER "a") in
  blockedUser s1 = ["a"] ∧
  blockedUser s2 = [] ∧
  filteredEntities s2 = [post_b2; post_a1] ∧
  ¬ ("a" ∈ blockedUser s2) ∧
  ¬ (∀ e, e ∈ entities s2 → feed_acct e = "a" → e ∉ filteredEntities s2).
Proof.
  cbn zeta. split; [reflexivity|]. split; [reflexivity|]. split; [reflexivity|].
  split.
  - apply not_elem_of_nil.
  - intros Hclaim. apply (Hclaim post_a1); [left | reflexivity | right; left].
Qed.

(** ** Hide then show *)

(** C5, amended: when the id is not yet in [hiddenFeedId] and the posts
    carrying the id in [entities] are, up to order, the posts carrying it
    in [filteredEntities] (the same posts, each as often),
    [HideFeed(id)] followed by [ShowFeed(id)] gives a [filteredEntities]
    with the same content as before, that is a permutation of it (the
    order may differ), and the [hiddenFeedId] of before. *)
Theorem hide_then_show_restores (M : Models) (s : State) (id : string) :
  hideFeed_contract M → showFeed_contract M → removeId_contract M →
  id ∉ hiddenFeedId s →
  filter (λ e, feed_id e = id) (entities s)
  ≡ₚ filter (λ e, feed_id e = id) (filteredEntities s) →
  let s2 := dispatch s [WALL_HIDE_FEED id; WALL_SHOW_FEED id] in
  filteredEntities s2 ≡ₚ filteredEntities s ∧
  hiddenFeedId s2 = hiddenFeedId s.
Proof.
  intros Hhide Hshow Hremove Hfresh Hsame. cbn zeta. simpl. split.
  - assert (filter (λ e, feed_id e = id) (filteredEntities s)
            = filter (λ e, ¬ feed_id e ≠ id) (filteredEntities s)) as Hcompl.
    { apply list_filter_iff. intros e.
      split; [by intros -> Hne | apply dec_stable]. }
    rewrite (Hshow _ _ _), Hhide, Hsame, Hcompl.
    apply filter_app_complement.
  - by apply removeId_snoc_fresh.
Qed.

Lemma hide_then_show_restores_witness :
  let s2 := @dispatch demoModels wall_ab [WALL_HIDE_FEED "1"; WALL_SHOW_FEED "1"] in
  ("1" ∉ hiddenFeedId wall_ab) ∧
  filteredEntities s2 = [post_b2; post_a1] ∧
  filteredEntities s2 ≡ₚ [post_a1; post_b2] ∧
  hiddenFeedId s2 = hiddenFeedId wall_ab.
Proof.
  cbn zeta. split; [apply not_elem_of_nil|]. split; [reflexivity|].
  apply (hide_then_show_restores demoModels wall_ab "1").
  - apply specModels_hideFeed.
  - apply specModels_showFeed.
  - apply specModels_removeId.
  - apply not_elem_of_nil.
  - reflexivity.
Defined.

(** C5 as stated fails, in both parts.  On the reachable wall
    [wall_rehidden], where post 1 is shown although its id is in
    [hiddenFeedId] and [entities] holds an older version of the post,
    hiding and showing id 1 empties [hiddenFeedId] and brings the older
    version into the view.  On the reachable wall [wall_repeated], where
    id 1 is not hidden and post 1 is twice in [entities] but once in the
    view, hiding and showing id 1 puts the post twice into the view: the
    members are the same, the content is not. *)
Lemma hide_then_show_counterexample :
  let s2 := @dispatch demoModels wall_rehidden
              [WALL_HIDE_FEED "1"; WALL_SHOW_FEED "1"] in
  let t2 := @dispatch demoModels wall_repeated
              [WALL_HIDE_FEED "1"; WALL_SHOW_FEED "1"] in
  (@reachable demoModels wall_rehidden ∧
   "1" ∈ ids (filteredEntities wall_rehidden) ∧
   hiddenFeedId wall_rehidden = ["1"] ∧
   hiddenFeedId s2 = [] ∧
   filteredEntities s2 = [post_a1_edited; post_a1] ∧
   hiddenFeedId s2 ≠ hiddenFeedId wall_rehidden ∧
   ¬ (filteredEntities s2 ≡ₚ filteredEntities wall_rehidden) ∧
   ¬ (∀ e, e ∈ filteredEntities s2 ↔ e ∈ filteredEntities wall_rehidden)) ∧
  (@reachable demoModels wall_repeated ∧
   "1" ∈ ids (filteredEntities wall_repeated) ∧
   hiddenFeedId wall_repeated = [] ∧
   filteredEntities wall_repeated = [post_a1] ∧
   filteredEntities t2 = [post_a1; post_a1] ∧
   ¬ (filteredEntities t2 ≡ₚ filteredEntities wall_repeated)).
Proof.
  cbn zeta. split.
  - split; [apply wall_rehidden_reachable|].
    split; [left|]. split; [reflexivity|]. split; [reflexivity|].
    split; [reflexivity|]. split; [discriminate|]. split.
    + intros Hperm. apply Permutation_length in Hperm. discriminate.
    + intros Hclaim.
      assert (post_a1 ∈ [post_a1_edited]) as Hin.
      { apply Hclaim. right. left. }
      apply list_elem_of_singleton in Hin. discriminate.
  - split; [apply wall_repeated_reachable|].
    split; [left|]. split; [reflexivity|]. split; [reflexivity|].
    split; [reflexivity|].
    intros Hperm. apply Permutation_length in Hperm. discriminate.
Qed.

(** * Further properties of the reducer *)

(** ** What a sequence of actions leaves alone *)

Lemma dispatch_cons (M : Models) s action actions :
  dispatch s (action :: actions) = dispatch (reducer s action) actions.
Proof. reflexivity. Qed.

Lemma dispatch_app (M : Models) s actions1 actions2 :
  dispatch s (actions1 ++ actions2) = dispatch (dispatch s actions1) actions2.
Proof. apply foldl_app. Qed.

Lemma dispatch_frame {A} (M : Models) (field : State → A) (touches : Action → bool) :
  (∀ s action, touches action = false → field (reducer s action) = field s) →
  ∀ actions s,
    Forall (λ action, touches action = false) actions →
    field (dispatch s actions) = field s.
Proof.
  intros Hstep actions. induction actions as [|action actions IH]; intros s Hall.
  - reflexivity.
  - apply Forall_cons in Hall as [Haction Hall].
    rewrite dispatch_cons, IH by done. by apply Hstep.
Qed.

Lemma entities_step (M : Models) s action :
  carries_posts action = false → entities (reducer s action) = entities s.
Proof. by destruct action. Qed.

Lemma hiddenFeedId_step (M : Models) s action :
  hides_or_shows action = false → hiddenFeedId (reducer s action) = hiddenFeedId s.
Proof. by destruct action. Qed.

Lemma blockedUser_step (M : Models) s action :
  blocks_or_unblocks action = false → blockedUser (reducer s action) = blockedUser s.
Proof. by destruct action. Qed.

Lemma profanityCheck_step (M : Models) s action :
  toggles_profanity action = false →
  profanityCheck (reducer s action) = profanityCheck s.
Proof. by destruct action. Qed.

Lemma removeDuplicate_step (M : Models) s action :
  toggles_duplicate action = false →
  removeDuplicate (reducer s action) = removeDuplicate s.
Proof. by destruct action. Qed.

(** X1: the raw list is touched by the two [..._COMPLETE_SUCCESS] actions
    only: after any sequence of other actions (hides, shows, blocks,
    unblocks, toggles, failures, unknown actions) [getEntities] returns
    what it returned before, whatever the helpers do. *)
Theorem moderation_keeps_entities (M : Models) (s : State) (actions : list Action) :
  Forall (λ action, carries_posts action = false) actions →
  getEntities (dispatch s actions) = getEntities s.
Proof. apply (dispatch_frame M entities), entities_step. Qed.

Lemma moderation_keeps_entities_witness :
  getEntities
    (@dispatch demoModels wall_ab
       [WALL_BLOCK_USER "a"; WALL_HIDE_FEED "2"; WALL_UNBLOCK_USER "a";
        WALL_PROFANITY_CHANGE_ACTION true; WALL_SEARCH_COMPLETE_FAIL])
  = [post_a1; post_b2].
Proof.
  apply (moderation_keeps_entities demoModels wall_ab).
  repeat constructor.
Defined.

(** X2: [getHiddenFeedId] changes with [HideFeed] and [ShowFeed] only, and
    [getBlockedUser] with [BlockUser] and [UnblockUser] only: a sequence
    of actions without them returns both lists as they were. *)
Theorem moderation_lists_frame (M : Models) (s : State) (actions : list Action) :
  (Forall (λ action, hides_or_shows action = false) actions →
   getHiddenFeedId (dispatch s actions) = getHiddenFeedId s) ∧
  (Forall (λ action, blocks_or_unblocks action = false) actions →
   getBlockedUser (dispatch s actions) = getBlockedUser s).
Proof.
  split.
  - apply (dispatch_frame M hiddenFeedId), hiddenFeedId_step.
  - apply (dispatch_frame M blockedUser), blockedUser_step.
Qed.

Lemma moderation_lists_frame_witness :
  let actions :=
    [WALL_SEARCH_COMPLETE_SUCCESS (mkApiResponse [post_c3]);
     WALL_REMOVE_DUPLICATE_CHANGE_ACTION true;
     WALL_PAGINATION_COMPLETE_SUCCESS (mkApiResponse [post_b2])] in
  getHiddenFeedId (@dispatch demoModels wall_rehidden actions) = ["1"] ∧
  getBlockedUser (@dispatch demoModels wall_blocked_a actions) = ["a"].
Proof.
  cbn zeta. split.
  - apply (moderation_lists_frame demoModels wall_rehidden). repeat constructor.
  - apply (moderation_lists_frame demoModels wall_blocked_a). repeat constructor.
Defined.

(** X3: each flag is the payload of the last toggle of its kind: after a
    sequence of actions in which [ProfanityToggle(flag)] is followed by no
    other profanity toggle, [getProfanityCheck] returns that flag; the
    same for [DuplicateToggle] and [getDuplicateRemove]. *)
Theorem flags_follow_last_toggle (M : Models) (s : State)
    (before after : list Action) (flag : bool) :
  (Forall (λ action, toggles_profanity action = false) after →
   getProfanityCheck
     (dispatch s (before ++ WALL_PROFANITY_CHANGE_ACTION flag :: after)) = flag) ∧
  (Forall (λ action, toggles_duplicate action = false) after →
   getDuplicateRemove
     (dispatch s (before ++ WALL_REMOVE_DUPLICATE_CHANGE_ACTION flag :: after)) = flag).
Proof.
  split; intros Hafter; rewrite dispatch_app, dispatch_cons.
  - unfold getProfanityCheck.
    by rewrite (dispatch_frame M profanityCheck _ (profanityCheck_step M)).
  - unfold getDuplicateRemove.
    by rewrite (dispatch_frame M removeDuplicate _ (removeDuplicate_step M)).
Qed.

Lemma flags_follow_last_toggle_witness :
  getProfanityCheck
    (@dispatch demoModels wall_ab
       ([WALL_PROFANITY_CHANGE_ACTION true; WALL_HIDE_FEED "1"]
        ++ WALL_PROFANITY_CHANGE_ACTION false
        :: [WALL_REMOVE_DUPLICATE_CHANGE_ACTION true; WALL_BLOCK_USER "b"]))
  = false.
Proof.
  apply (flags_follow_last_toggle demoModels wall_ab). repeat constructor.
Defined.

(** ** Pages, searches and the raw state *)

(** X4: pages pile up in front of the raw list, newest first: after the
    pages [p1, ..., pn] have arrived in this order, [entities] is
    [pn ++ ... ++ p1] followed by the old [entities]; nothing is dropped
    or deduplicated there, so its length grows by the sizes of the
    pages. *)
Theorem pages_accumulate (M : Models) (s : State) (pages : list ApiResponse) :
  let s' := dispatch s (WALL_PAGINATION_COMPLETE_SUCCESS <$> pages) in
  entities s' = concat (reverse (statuses <$> pages)) ++ entities s ∧
  length (entities s')
  = sum_list (length <$> (statuses <$> pages)) + length (entities s).
Proof.
  cbn zeta. revert s. induction pages as [|page pages IH]; intros s.
  - by split.
  - rewrite !fmap_cons, dispatch_cons. destruct (IH (reducer s
      (WALL_PAGINATION_COMPLETE_SUCCESS page))) as [-> ->]. simpl. split.
    + rewrite reverse_cons, concat_app. simpl.
      by rewrite app_nil_r, <- app_assoc.
    + rewrite length_app. lia.
Qed.

Lemma raw_state_step (M1 M2 : Models) s1 s2 action :
  entities s1 = entities s2 →
  profanityCheck s1 = profanityCheck s2 →
  removeDuplicate s1 = removeDuplicate s2 →
  entities (@reducer M1 s1 action) = entities (@reducer M2 s2 action) ∧
  profanityCheck (@reducer M1 s1 action) = profanityCheck (@reducer M2 s2 action) ∧
  removeDuplicate (@reducer M1 s1 action) = removeDuplicate (@reducer M2 s2 action).
Proof.
  intros He Hp Hd. destruct action; simpl; rewrite ?He; by repeat split.
Qed.

Lemma moderation_lists_step (M1 M2 : Models) s1 s2 action :
  (∀ l id, @removeId M1 l id = @removeId M2 l id) →
  hiddenFeedId s1 = hiddenFeedId s2 →
  blockedUser s1 = blockedUser s2 →
  hiddenFeedId (@reducer M1 s1 action) = hiddenFeedId (@reducer M2 s2 action) ∧
  blockedUser (@reducer M1 s1 action) = blockedUser (@reducer M2 s2 action).
Proof.
  intros Hremove Hh Hb.
  destruct action; simpl; rewrite ?Hh, ?Hb, ?Hremove; by split.
Qed.

Lemma raw_state_dispatch (M1 M2 : Models) actions s1 s2 :
  entities s1 = entities s2 →
  profanityCheck s1 = profanityCheck s2 →
  removeDuplicate s1 = removeDuplicate s2 →
  entities (@dispatch M1 s1 actions) = entities (@dispatch M2 s2 actions) ∧
  profanityCheck (@dispatch M1 s1 actions)
  = profanityCheck (@dispatch M2 s2 actions) ∧
  removeDuplicate (@dispatch M1 s1 actions)
  = removeDuplicate (@dispatch M2 s2 actions).
Proof.
  revert s1 s2.
  induction actions as [|action actions IH]; intros s1 s2 He Hp Hd; [done|].
  rewrite !dispatch_cons.
  destruct (raw_state_step M1 M2 s1 s2 action He Hp Hd) as (? & ? & ?).
  by apply IH.
Qed.

Lemma moderation_lists_dispatch (M1 M2 : Models) actions s1 s2 :
  (∀ l id, @removeId M1 l id = @removeId M2 l id) →
  hiddenFeedId s1 = hiddenFeedId s2 →
  blockedUser s1 = blockedUser s2 →
  hiddenFeedId (@dispatch M1 s1 actions) = hiddenFeedId (@dispatch M2 s2 actions) ∧
  blockedUser (@dispatch M1 s1 actions) = blockedUser (@dispatch M2 s2 actions).
Proof.
  intros Hremove. revert s1 s2.
  induction actions as [|action actions IH]; intros s1 s2 Hh Hb; [done|].
  rewrite !dispatch_cons.
  destruct (moderation_lists_step M1 M2 s1 s2 action Hremove Hh Hb) as (? & ?).
  by apply IH.
Qed.

(** X5: the filter helpers have no influence on the raw state.  With two
    different implementations of the helpers, the same actions from the
    same state give the same [entities], [profanityCheck] and
    [removeDuplicate]; and the same [hiddenFeedId] and [blockedUser] as
    soon as the two [removeId] agree.  Only [filteredEntities] depends on
    the filters. *)
Theorem raw_state_independent_of_filters
    (M1 M2 : Models) (s : State) (actions : list Action) :
  let s1 := @dispatch M1 s actions in
  let s2 := @dispatch M2 s actions in
  entities s1 = entities s2 ∧
  profanityCheck s1 = profanityCheck s2 ∧
  removeDuplicate s1 = removeDuplicate s2 ∧
  ((∀ l id, @removeId M1 l id = @removeId M2 l id) →
   hiddenFeedId s1 = hiddenFeedId s2 ∧ blockedUser s1 = blockedUser s2).
Proof.
  cbn zeta.
  destruct (raw_state_dispatch M1 M2 actions s s) as (He & Hp & Hd); [done..|].
  split; [exact He|]. split; [exact Hp|]. split; [exact Hd|].
  intros Hremove. by apply moderation_lists_dispatch.
Qed.

Lemma raw_state_independent_of_filters_witness :
  let actions :=
    [WALL_SEARCH_COMPLETE_SUCCESS (mkApiResponse [post_a1; post_d4]);
     WALL_HIDE_FEED "1"; WALL_BLOCK_USER "d"; WALL_SHOW_FEED "1"] in
  hiddenFeedId (@dispatch demoModels initialState actions)
  = hiddenFeedId (@dispatch (specModels (lexicon_check [])) initialState actions) ∧
  blockedUser (@dispatch demoModels initialState actions)
  = blockedUser (@dispatch (specModels (lexicon_check [])) initialState actions).
Proof.
  cbn zeta.
  apply (raw_state_independent_of_filters
           demoModels (specModels (lexicon_check [])) initialState).
  intros l id. reflexivity.
Defined.

(** X6: a successful search starts the wall afresh.  Its result depends on
    the payload, the two moderation lists and the two flags only, never on
    the posts the wall held: two states that agree on [hiddenFeedId],
    [blockedUser] and the flags go to the same state.  So a search after
    an earlier search or page gives what it gives without them, and the
    same search twice is the search once. *)
Theorem search_forgets_the_wall (M : Models) (s t : State) (payload : ApiResponse) :
  (hiddenFeedId s = hiddenFeedId t → blockedUser s = blockedUser t →
   profanityCheck s = profanityCheck t → removeDuplicate s = removeDuplicate t →
   reducer s (WALL_SEARCH_COMPLETE_SUCCESS payload)
   = reducer t (WALL_SEARCH_COMPLETE_SUCCESS payload)) ∧
  (∀ earlier,
     dispatch s [WALL_SEARCH_COMPLETE_SUCCESS earlier;
                 WALL_SEARCH_COMPLETE_SUCCESS payload]
     = reducer s (WALL_SEARCH_COMPLETE_SUCCESS payload) ∧
     dispatch s [WALL_PAGINATION_COMPLETE_SUCCESS earlier;
                 WALL_SEARCH_COMPLETE_SUCCESS payload]
     = reducer s (WALL_SEARCH_COMPLETE_SUCCESS payload)) ∧
  dispatch s [WALL_SEARCH_COMPLETE_SUCCESS payload;
              WALL_SEARCH_COMPLETE_SUCCESS payload]
  = reducer s (WALL_SEARCH_COMPLETE_SUCCESS payload).
Proof.
  split; [|split; [intros earlier; split|]]; try reflexivity.
  intros Hh Hb Hp Hd. simpl. unfold assign_entities.
  by rewrite Hh, Hb, Hp, Hd.
Qed.

Lemma search_forgets_the_wall_witness :
  @reducer demoModels wall_ab (WALL_SEARCH_COMPLETE_SUCCESS (mkApiResponse [post_c3]))
  = @reducer demoModels wall_1 (WALL_SEARCH_COMPLETE_SUCCESS (mkApiResponse [post_c3])).
Proof.
  apply (search_forgets_the_wall demoModels wall_ab wall_1); reflexivity.
Defined.

(** X7: [HideFeed] and [BlockUser] never return the state they were given:
    the id is appended to [hiddenFeedId], the account to [blockedUser],
    also when no post has that id or the account is blocked already; each
    list is one longer afterwards. *)
Theorem hide_and_block_always_change_state
    (M : Models) (s : State) (id user : string) :
  reducer s (WALL_HIDE_FEED id) ≠ s ∧
  reducer s (WALL_BLOCK_USER user) ≠ s ∧
  length (hiddenFeedId (reducer s (WALL_HIDE_FEED id))) = S (length (hiddenFeedId s)) ∧
  length (blockedUser (reducer s (WALL_BLOCK_USER user))) = S (length (blockedUser s)).
Proof.
  assert (∀ (l : list string) x, length (l ++ [x]) = S (length l)) as Hlen.
  { intros l x. rewrite length_app. simpl. lia. }
  repeat split; simpl; try apply Hlen.
  - intros Heq. apply (f_equal (λ t, length (hiddenFeedId t))) in Heq.
    simpl in Heq. rewrite Hlen in Heq. lia.
  - intros Heq. apply (f_equal (λ t, length (blockedUser t))) in Heq.
    simpl in Heq. rewrite Hlen in Heq. lia.
Qed.

(** ** The store from its first action on *)

Lemma dispatch_keeps_filtered_within (M : Models) s actions :
  subset_contracts M →
  filtered_within_entities s → filtered_within_entities (dispatch s actions).
Proof.
  intros HM. revert s. induction actions as [|action actions IH]; intros s Hs; [done|].
  rewrite dispatch_cons. by apply IH, reducer_keeps_filtered_within.
Qed.

(** X8: called without a state the reducer starts from [initialState]
    (the default parameter).  With helpers that return by-id subsets, a
    store that starts this way and then handles any sequence of actions
    shows through [getFilteredEntities] only ids that [getEntities] has. *)
Theorem store_view_within_entities
    (M : Models) (first : Action) (actions : list Action) :
  subset_contracts M →
  let s := dispatch (reducer_default None first) actions in
  ids (getFilteredEntities s) ⊆ ids (getEntities s).
Proof.
  intros HM. apply (dispatch_keeps_filtered_within M _ _ HM).
  apply (reducer_keeps_filtered_within M HM).
  unfold filtered_within_entities. simpl. apply list_subseteq_nil.
Qed.

Lemma store_view_within_entities_witness :
  let s := @dispatch demoModels
             (@reducer_default demoModels None (OTHER_ACTION "@ngrx/store/init"))
             wall_rehidden_trace in
  ids (getFilteredEntities s) ⊆ ids (getEntities s).
Proof.
  apply (store_view_within_entities demoModels), specModels_subset.
Defined.

(** ** Empty payloads *)

Lemma ids_subseteq_nil l : ids l ⊆ [] → l = [].
Proof.
  intros Hsub. destruct l as [|e l]; [done|].
  exfalso. apply (not_elem_of_nil (feed_id e)), Hsub. left.
Qed.

(** X9: an empty page.  With filters that return by-id subsets, a
    successful pagination with no posts changes nothing but the view:
    [entities], [hiddenFeedId], [blockedUser] and both flags are as
    before, and the view is as before when [removeDuplicate] is off and
    [removeDuplicateCheck] of the old view when it is on.  So the state
    returned is the very same state when [removeDuplicate] is off, and the
    state [DuplicateToggle(true)] returns when it is on. *)
Theorem empty_page (M : Models) (s : State) :
  subset_contracts M →
  let s' := reducer s (WALL_PAGINATION_COMPLETE_SUCCESS (mkApiResponse [])) in
  entities s' = entities s ∧
  hiddenFeedId s' = hiddenFeedId s ∧
  blockedUser s' = blockedUser s ∧
  profanityCheck s' = profanityCheck s ∧
  removeDuplicate s' = removeDuplicate s ∧
  filteredEntities s'
  = (if removeDuplicate s then removeDuplicateCheck (filteredEntities s)
     else filteredEntities s) ∧
  (removeDuplicate s = false → s' = s) ∧
  (removeDuplicate s = true →
   s' = reducer s (WALL_REMOVE_DUPLICATE_CHANGE_ACTION true)).
Proof.
  intros HM. cbn zeta. simpl.
  assert ((if profanityCheck s then profanityFilter []
           else accountExclusion [] (blockedUser s)) = []) as ->.
  { apply ids_subseteq_nil. destruct (profanityCheck s).
    - apply (profanityFilter_sub M HM).
    - apply (accountExclusion_sub M HM). }
  simpl. do 6 (split; [reflexivity|]).
  split; intros Hdup; rewrite Hdup.
  - destruct s; simpl in *. by rewrite Hdup.
  - unfold assign_entities, assign_duplicate. by rewrite Hdup.
Qed.

Lemma empty_page_witness :
  @reducer demoModels wall_blocked_a
    (WALL_PAGINATION_COMPLETE_SUCCESS (mkApiResponse []))
  = wall_blocked_a ∧
  @reducer demoModels wall_repeated
    (WALL_PAGINATION_COMPLETE_SUCCESS (mkApiResponse []))
  = @reducer demoModels wall_repeated (WALL_REMOVE_DUPLICATE_CHANGE_ACTION true).
Proof.
  split.
  - destruct (empty_page demoModels wall_blocked_a (specModels_subset _))
      as (_ & _ & _ & _ & _ & _ & Hoff & _).
    apply Hoff. reflexivity.
  - destruct (empty_page demoModels wall_repeated (specModels_subset _))
      as (_ & _ & _ & _ & _ & _ & _ & Hon).
    apply Hon. reflexivity.
Defined.

(** X10: an empty search result.  With filters that return by-id subsets,
    a successful search with no posts empties both [entities] and
    [filteredEntities], whatever the flags and the blocked users are, and
    keeps the moderation lists and the flags. *)
Theorem empty_search_result (M : Models) (s : State) :
  subset_contracts M →
  let s' := reducer s (WALL_SEARCH_COMPLETE_SUCCESS (mkApiResponse [])) in
  entities s' = [] ∧ filteredEntities s' = [] ∧
  hiddenFeedId s' = hiddenFeedId s ∧ blockedUser s' = blockedUser s ∧
  profanityCheck s' = profanityCheck s ∧ removeDuplicate s' = removeDuplicate s.
Proof.
  intros HM. cbn zeta. simpl. repeat split.
  apply ids_subseteq_nil.
  destruct (removeDuplicate s);
    [etrans; [apply (removeDuplicateCheck_sub M HM)|]|];
    (destruct (profanityCheck s); [etrans; [apply (profanityFilter_sub M HM)|]|]);
    apply (accountExclusion_sub M HM).
Qed.

Lemma empty_search_result_witness :
  let s' := @reducer demoModels wall_rehidden
              (WALL_SEARCH_COMPLETE_SUCCESS (mkApiResponse [])) in
  entities s' = [] ∧ filteredEntities s' = [] ∧ hiddenFeedId s' = ["1"].
Proof.
  destruct (empty_search_result demoModels wall_rehidden (specModels_subset _))
    as (He & Hf & Hh & _).
  by repeat split.
Defined.

(** ** Hides and blocks in sequence *)

(** X11: hides compose.  With [hideFeed] removing the posts with the id,
    hiding a list of ids one after the other removes from the view exactly
    the posts whose id is in the list, keeps the others in order, and
    appends the ids to [hiddenFeedId] in the order of the hides; the view
    does not depend on that order. *)
Theorem hides_compose (M : Models) (s : State) (hidden : list string) :
  hideFeed_contract M →
  let s' := dispatch s (WALL_HIDE_FEED <$> hidden) in
  filteredEntities s' = filter (λ e, feed_id e ∉ hidden) (filteredEntities s) ∧
  hiddenFeedId s' = hiddenFeedId s ++ hidden.
Proof.
  intros HM. cbn zeta. revert s.
  induction hidden as [|id hidden IH]; intros s.
  - simpl. rewrite app_nil_r. split; [|done].
    symmetry. apply filter_all. intros e _. apply not_elem_of_nil.
  - rewrite fmap_cons, dispatch_cons. destruct (IH (reducer s (WALL_HIDE_FEED id)))
      as [-> ->]. simpl. rewrite HM, list_filter_filter, <- app_assoc.
    split; [|done]. apply list_filter_iff. intros e.
    rewrite not_elem_of_cons. tauto.
Qed.

Lemma hides_compose_witness :
  filteredEntities
    (@dispatch demoModels wall_ab [WALL_HIDE_FEED "2"; WALL_HIDE_FEED "1"])
  = filteredEntities
      (@dispatch demoModels wall_ab [WALL_HIDE_FEED "1"; WALL_HIDE_FEED "2"]).
Proof.
  destruct (hides_compose demoModels wall_ab ["2"; "1"] (specModels_hideFeed _))
    as [Hview _].
  etrans; [exact Hview | reflexivity].
Defined.

(** X12: blocks compose.  With [accountExclusion] removing the posts of
    the blocked accounts, blocking the accounts [u, us...] one after the
    other leaves in the view exactly the posts whose account is neither in
    the old blocked list nor among them, in order, and appends the
    accounts to [blockedUser], repeats included. *)
Theorem blocks_compose (M : Models) (s : State) (u : string) (us : list string) :
  accountExclusion_contract M →
  let s' := dispatch s (WALL_BLOCK_USER <$> u :: us) in
  filteredEntities s'
  = filter (λ e, feed_acct e ∉ blockedUser s ++ u :: us) (filteredEntities s) ∧
  blockedUser s' = blockedUser s ++ u :: us.
Proof.
  intros HM. cbn zeta. revert s u.
  induction us as [|v us IH]; intros s u.
  - simpl. by rewrite HM.
  - rewrite fmap_cons, dispatch_cons.
    destruct (IH (reducer s (WALL_BLOCK_USER u)) v) as [-> ->].
    simpl. rewrite HM, <- !app_assoc. simpl. split; [|done].
    apply list_filter_filter_l. intros e He Hin. apply He.
    rewrite elem_of_app in Hin. rewrite elem_of_app.
    destruct Hin as [Hin|Hin]; [by left|right].
    apply list_elem_of_singleton in Hin as ->. left.
Qed.

Lemma blocks_compose_witness :
  let s' := @dispatch demoModels wall_ab
              [WALL_BLOCK_USER "b"; WALL_BLOCK_USER "c"; WALL_BLOCK_USER "b"] in
  filteredEntities s' = [post_a1] ∧ blockedUser s' = ["b"; "c"; "b"].
Proof.
  destruct (blocks_compose demoModels wall_ab "b" ["c"; "b"]
              (specModels_accountExclusion _)) as [Hview Hblocked].
  split; [etrans; [exact Hview | reflexivity] | exact Hblocked].
Defined.

(** ** Blocked accounts and the view *)

Lemma spec_profanityFilter_only_removes profane :
  only_removes (spec_profanityFilter profane).
Proof. intros l e He. by apply list_elem_of_filter in He as [_ He]. Qed.

Lemma spec_removeDuplicateCheck_only_removes :
  only_removes spec_removeDuplicateCheck.
Proof.
  intros l. induction l as [|x l IH]; intros e He; [done|].
  simpl in He. apply elem_of_cons in He as [->|He]; [left|right].
  apply list_elem_of_filter in He as [_ He]. by apply IH.
Qed.

Lemma accountExclusion_no_blocked (M : Models) l blocked e :
  accountExclusion_contract M →
  e ∈ accountExclusion l blocked → e ∈ l ∧ feed_acct e ∉ blocked.
Proof.
  intros HM He. rewrite HM in He. apply list_elem_of_filter in He. tauto.
Qed.

(** X13: a successful search and [BlockUser] clear the view of blocked
    accounts, whatever the wall held before.  With [accountExclusion]
    removing the posts of the blocked accounts and the other two filters
    only removing posts, no post of [filteredEntities] is by an account of
    [blockedUser] after either action. *)
Theorem search_and_block_clear_blocked
    (M : Models) (s : State) (payload : ApiResponse) (user : string) :
  accountExclusion_contract M →
  only_removes profanityFilter → only_removes removeDuplicateCheck →
  no_blocked_in_view (reducer s (WALL_SEARCH_COMPLETE_SUCCESS payload)) ∧
  no_blocked_in_view (reducer s (WALL_BLOCK_USER user)).
Proof.
  intros HM Hprof Hdup. split; intros e He; simpl in *.
  - assert (e ∈ accountExclusion (statuses payload) (blockedUser s)) as Hin.
    { destruct (removeDuplicate s); [apply Hdup in He|];
        (destruct (profanityCheck s); [apply Hprof in He|]); exact He. }
    by apply (accountExclusion_no_blocked M) in Hin as [_ Hin].
  - by apply (accountExclusion_no_blocked M) in He as [_ He].
Qed.

Lemma search_and_block_clear_blocked_witness :
  no_blocked_in_view
    (@reducer demoModels wall_blocked_a
       (WALL_SEARCH_COMPLETE_SUCCESS (mkApiResponse [post_a1; post_b2]))).
Proof.
  apply (search_and_block_clear_blocked demoModels wall_blocked_a _ "c").
  - apply specModels_accountExclusion.
  - apply spec_profanityFilter_only_removes.
  - apply spec_removeDuplicateCheck_only_removes.
Defined.

(** X14: once the view is free of blocked accounts, it stays so under
    every action except [ShowFeed], [UnblockUser] and a page that arrives
    while [profanityCheck] is on (the reducer filters that page for
    profanity instead of for accounts).  The helpers are as in X13, with
    [hideFeed] removing the posts with the id. *)
Theorem view_stays_free_of_blocked (M : Models) (s : State) (action : Action) :
  accountExclusion_contract M → hideFeed_contract M →
  only_removes profanityFilter → only_removes removeDuplicateCheck →
  respects_blocking s action = true →
  no_blocked_in_view s → no_blocked_in_view (reducer s action).
Proof.
  intros HM Hhide Hprof Hdup Haction Hs.
  destruct action as [payload| |payload| |id|id|user|user|flag|flag|type];
    try discriminate; try exact Hs; intros e He; simpl in *.
  - assert (e ∈ accountExclusion (statuses payload) (blockedUser s)) as Hin.
    { destruct (removeDuplicate s); [apply Hdup in He|];
        (destruct (profanityCheck s); [apply Hprof in He|]); exact He. }
    by apply (accountExclusion_no_blocked M) in Hin as [_ Hin].
  - destruct (profanityCheck s); [discriminate|].
    assert (e ∈ accountExclusion (statuses payload) (blockedUser s)
                ++ filteredEntities s) as Hin.
    { destruct (removeDuplicate s); [apply Hdup in He|]; exact He. }
    apply elem_of_app in Hin as [Hin|Hin]; [|by apply Hs].
    by apply (accountExclusion_no_blocked M) in Hin as [_ Hin].
  - rewrite Hhide in He. apply list_elem_of_filter in He as [_ He]. by apply Hs.
  - by apply (accountExclusion_no_blocked M) in He as [_ He].
  - apply Hs. by apply Hprof.
  - apply Hs. by apply Hdup.
Qed.

Lemma view_stays_free_of_blocked_witness :
  no_blocked_in_view
    (@reducer demoModels
       (@reducer demoModels wall_ab (WALL_BLOCK_USER "a"))
       (WALL_PAGINATION_COMPLETE_SUCCESS (mkApiResponse [post_a1; post_c3]))).
Proof.
  apply (view_stays_free_of_blocked demoModels).
  - apply specModels_accountExclusion.
  - apply specModels_hideFeed.
  - apply spec_profanityFilter_only_removes.
  - apply spec_removeDuplicateCheck_only_removes.
  - reflexivity.
  - intros e He. apply list_elem_of_singleton in He as ->.
    intros Hin. apply list_elem_of_singleton in Hin. discriminate.
Defined.

(** ** Showing a feed and repeated toggles *)

(** X15: [ShowFeed(id)] takes the id out of [hiddenFeedId] altogether.
    With [removeId] the list difference of one id, the id is no longer in
    [hiddenFeedId] afterwards, however often it was hidden; the other
    hidden ids stay, in order; showing an id that was not hidden leaves
    the list as it is.  The view becomes [showFeed] of [entities] and the
    old view; [entities], [blockedUser] and the flags are kept. *)
Theorem show_feed_clears_hidden_id (M : Models) (s : State) (id : string) :
  removeId_contract M →
  let s' := reducer s (WALL_SHOW_FEED id) in
  (id ∉ hiddenFeedId s') ∧
  hiddenFeedId s' = filter (λ j, j ≠ id) (hiddenFeedId s) ∧
  (id ∉ hiddenFeedId s → hiddenFeedId s' = hiddenFeedId s) ∧
  (∀ times, id ∉ hiddenFeedId
              (dispatch s (replicate times (WALL_HIDE_FEED id) ++ [WALL_SHOW_FEED id]))) ∧
  filteredEntities s' = showFeed (entities s) (filteredEntities s) id ∧
  entities s' = entities s ∧ blockedUser s' = blockedUser s ∧
  profanityCheck s' = profanityCheck s ∧ removeDuplicate s' = removeDuplicate s.
Proof.
  intros HM. cbn zeta.
  assert (∀ t, id ∉ hiddenFeedId (reducer t (WALL_SHOW_FEED id))) as Hgone.
  { intros t Hin. simpl in Hin. rewrite HM in Hin.
    apply list_elem_of_filter in Hin as [Hne _]. by apply Hne. }
  split; [apply Hgone|]. split; [apply HM|]. split.
  - intros Hfresh. simpl. rewrite HM. apply filter_all. by intros j Hj ->.
  - split; [|by repeat split].
    intros times. rewrite dispatch_app. apply Hgone.
Qed.

Lemma show_feed_clears_hidden_id_witness :
  "1" ∉ hiddenFeedId
          (@dispatch demoModels wall_rehidden
             (replicate 2 (WALL_HIDE_FEED "1") ++ [WALL_SHOW_FEED "1"])).
Proof.
  destruct (show_feed_clears_hidden_id demoModels wall_rehidden "1"
              (specModels_removeId _)) as (_ & _ & _ & Htimes & _).
  apply (Htimes 2).
Defined.

(** X16: with an idempotent filter, toggling twice in a row is toggling
    once with the last flag: [ProfanityToggle(b1)] then
    [ProfanityToggle(b2)] gives the state of [ProfanityToggle(b2)] alone,
    and the same for [DuplicateToggle]. *)
Theorem repeated_toggle_is_last_toggle (M : Models) (s : State) (b1 b2 : bool) :
  (idempotent profanityFilter →
   dispatch s [WALL_PROFANITY_CHANGE_ACTION b1; WALL_PROFANITY_CHANGE_ACTION b2]
   = reducer s (WALL_PROFANITY_CHANGE_ACTION b2)) ∧
  (idempotent removeDuplicateCheck →
   dispatch s [WALL_REMOVE_DUPLICATE_CHANGE_ACTION b1;
               WALL_REMOVE_DUPLICATE_CHANGE_ACTION b2]
   = reducer s (WALL_REMOVE_DUPLICATE_CHANGE_ACTION b2)).
Proof.
  split; intros Hidem; simpl.
  - unfold assign_profanity. simpl. by rewrite Hidem.
  - unfold assign_duplicate. simpl. by rewrite Hidem.
Qed.

Lemma repeated_toggle_is_last_toggle_witness :
  @dispatch demoModels wall_profane
    [WALL_REMOVE_DUPLICATE_CHANGE_ACTION true;
     WALL_REMOVE_DUPLICATE_CHANGE_ACTION false]
  = @reducer demoModels wall_profane (WALL_REMOVE_DUPLICATE_CHANGE_ACTION false).
Proof.
  apply (repeated_toggle_is_last_toggle demoModels wall_profane true false).
  intros l. apply spec_removeDuplicateCheck_idemp.
Defined.

(** ** A wall without moderation *)

Lemma unmoderated_step (M : Models) s action :
  accountExclusion_contract M →
  (hides_or_shows action || blocks_or_unblocks action
   || toggles_profanity action || toggles_duplicate action) = false →
  blockedUser s = [] → profanityCheck s = false → removeDuplicate s = false →
  filteredEntities s = entities s →
  let s' := reducer s action in
  blockedUser s' = [] ∧ profanityCheck s' = false ∧ removeDuplicate s' = false ∧
  filteredEntities s' = entities s'.
Proof.
  intros HM Haction Hb Hp Hd Hview.
  destruct action; try discriminate; simpl; rewrite ?Hb, ?Hp, ?Hd;
    rewrite ?(accountExclusion_nil M) by done; rewrite ?Hview; by repeat split.
Qed.

(** X17: a wall nobody moderates shows everything.  With
    [accountExclusion] removing only posts of blocked accounts, a state
    with nobody blocked, both flags off and the view equal to the raw list
    keeps view and raw list equal under any sequence of searches, pages,
    failures and unknown actions; from [initialState] in particular. *)
Theorem unmoderated_wall_shows_all (M : Models) (s : State) (actions : list Action) :
  accountExclusion_contract M →
  Forall (λ action,
    (hides_or_shows action || blocks_or_unblocks action
     || toggles_profanity action || toggles_duplicate action) = false) actions →
  blockedUser s = [] → profanityCheck s = false → removeDuplicate s = false →
  getFilteredEntities s = getEntities s →
  getFilteredEntities (dispatch s actions) = getEntities (dispatch s actions).
Proof.
  intros HM Hall. unfold getFilteredEntities, getEntities. revert s.
  induction actions as [|action actions IH]; intros s Hb Hp Hd Hview; [done|].
  apply Forall_cons in Hall as [Haction Hall]. rewrite dispatch_cons.
  destruct (unmoderated_step M s action HM Haction Hb Hp Hd Hview)
    as (? & ? & ? & ?).
  by apply IH.
Qed.

Lemma unmoderated_wall_shows_all_witness :
  let s := @dispatch demoModels initialState
             [WALL_SEARCH_COMPLETE_SUCCESS (mkApiResponse [post_a1; post_d4]);
              WALL_PAGINATION_COMPLETE_FAIL;
              WALL_PAGINATION_COMPLETE_SUCCESS (mkApiResponse [post_a1; post_c3])] in
  getFilteredEntities s = getEntities s.
Proof.
  apply (unmoderated_wall_shows_all demoModels initialState);
    [apply specModels_accountExclusion | repeat constructor | reflexivity..].
Defined.
